(** * wit-ai: a shallow embedding of [wit-ai.js]

    The module exports three operations, [speech], [stream] and [text].
    Each one builds an options object, hands it to the [request] library
    together with a callback, and wraps the whole in a promise that the
    callback settles.

    The embedding follows the source function by function:
    - JavaScript strings are sequences of UTF-16 code units;
    - a parsed response is a JSON value, its objects finite maps;
    - the callback is written in a small monad that threads the promise's
      state and lets an exception escape;
    - [JSON.parse], property access and string conversion, which the
      source takes from the language, are modelled next to it. *)

From stdpp Require Import gmap list.
From Stdlib Require Import String Ascii NArith.

#[local] Set Warnings "-register-all,-clear-no-such-hyp".
#[local] Open Scope N_scope.

(** ** Strings *)

(** A JavaScript string: its UTF-16 code units. *)
Abbreviation jsstring := (list N).

(** The code units of an ASCII literal of the source. *)
Definition js (s : string) : jsstring :=
  N_of_ascii <$> list_ascii_of_string s.

(** The same, with every apostrophe read as a double quote: used to write
    response bodies, whose text is full of double quotes. *)
Definition dq (s : string) : jsstring :=
  (λ c, if c =? 39 then 34 else c) <$> js s.

(** ASCII lower-casing, as HTTP compares header names. *)
Definition lower_unit (c : N) : N :=
  if (65 <=? c) && (c <=? 90) then c + 32 else c.

Definition lower (s : jsstring) : jsstring := lower_unit <$> s.

(** ** Values *)

(** What [JSON.parse] can return.  A number is kept as the numeric literal
    that denotes it; an object is the finite map of its own properties. *)
Inductive json : Type :=
| JNull
| JBool (b : bool)
| JNum (lexeme : jsstring)
| JStr (s : jsstring)
| JArr (elems : list json)
| JObj (props : gmap jsstring json).

(** A JavaScript value as the operations receive or read it: [undefined]
    (an argument the caller left out, a property that is not there) or a
    value of the JSON kind. *)
Inductive value : Type :=
| VUndefined
| VJson (j : json).

(** An [Error] object. *)
Record Error : Type := mkError {
  name : jsstring;
  message : jsstring;
}.

(** [new Error(msg)]. *)
Definition new_Error (msg : jsstring) : Error :=
  {| name := js "Error"; message := msg |}.

(** ** Exceptions *)

Inductive exn : Type :=
| SyntaxError
| TypeError
| RangeError.

(** The completion of an expression: its value, or the exception it throws. *)
Inductive completion (A : Type) : Type :=
| Normal (a : A)
| Throw (e : exn).

Arguments Normal {A} a.
Arguments Throw {A} e.

#[global] Instance completion_ret : MRet completion := @Normal.

#[global] Instance completion_bind : MBind completion :=
  λ A B f c, match c with Normal a => f a | Throw e => Throw e end.

(** ** [JSON.parse] *)

Module JSON.

(** *** Tokens *)

Inductive token : Type :=
| TLBrace
| TRBrace
| TLBracket
| TRBracket
| TColon
| TComma
| TString (s : jsstring)
| TNumber (lexeme : jsstring)
| TTrue
| TFalse
| TNull.

Definition is_ws (c : N) : bool :=
  (c =? 9) || (c =? 10) || (c =? 13) || (c =? 32).

Definition is_digit (c : N) : bool := (48 <=? c) && (c <=? 57).

(** The code units a literal name or a number is made of. *)
Definition is_word (c : N) : bool :=
  is_digit c || ((65 <=? c) && (c <=? 90)) || ((97 <=? c) && (c <=? 122))
  || (c =? 43) || (c =? 45) || (c =? 46).

Definition punctuation (c : N) : option token :=
  if c =? 123 then Some TLBrace
  else if c =? 125 then Some TRBrace
  else if c =? 91 then Some TLBracket
  else if c =? 93 then Some TRBracket
  else if c =? 58 then Some TColon
  else if c =? 44 then Some TComma
  else None.

Definition hex_value (c : N) : option N :=
  if is_digit c then Some (c - 48)
  else if (65 <=? c) && (c <=? 70) then Some (c - 55)
  else if (97 <=? c) && (c <=? 102) then Some (c - 87)
  else None.

(** The character a single-letter escape stands for. *)
Definition escape (c : N) : option N :=
  if c =? 34 then Some 34
  else if c =? 92 then Some 92
  else if c =? 47 then Some 47
  else if c =? 98 then Some 8
  else if c =? 102 then Some 12
  else if c =? 110 then Some 10
  else if c =? 114 then Some 13
  else if c =? 116 then Some 9
  else None.

(** *** Numbers

    An optional minus sign; then a single zero, or a non-zero digit and any
    digits; then optionally a point and one digit or more; then optionally
    an [e] or [E], an optional sign and one digit or more. *)

Fixpoint skip_digits (l : jsstring) : jsstring :=
  match l with
  | c :: r => if is_digit c then skip_digits r else l
  | [] => []
  end.

(** One digit at least, then whatever [k] accepts. *)
Definition digits_then (k : jsstring → bool) (l : jsstring) : bool :=
  match l with
  | c :: r => is_digit c && k (skip_digits r)
  | [] => false
  end.

Definition at_end (l : jsstring) : bool :=
  match l with [] => true | _ => false end.

Definition exponent_opt (l : jsstring) : bool :=
  match l with
  | [] => true
  | c :: r =>
      ((c =? 69) || (c =? 101)) &&
      match r with
      | s :: r' =>
          if (s =? 43) || (s =? 45) then digits_then at_end r'
          else digits_then at_end r
      | [] => false
      end
  end.

Definition fraction_opt (l : jsstring) : bool :=
  match l with
  | c :: r => if c =? 46 then digits_then exponent_opt r else exponent_opt l
  | [] => true
  end.

Definition integer_part (l : jsstring) : bool :=
  match l with
  | c :: r =>
      if c =? 48 then fraction_opt r
      else is_digit c && fraction_opt (skip_digits r)
  | [] => false
  end.

Definition is_number (l : jsstring) : bool :=
  match l with
  | c :: r => if c =? 45 then integer_part r else integer_part l
  | [] => false
  end.

(** *** The lexer, one code unit at a time *)

Inductive lexer : Type :=
| LStart
| LWord (acc : jsstring)
| LString (acc : jsstring)
| LEscape (acc : jsstring)
| LUnicode (acc : jsstring) (seen : nat) (code : N).

(** The token a finished run of word characters is. *)
Definition word_token (w : jsstring) : option token :=
  if decide (w = js "true") then Some TTrue
  else if decide (w = js "false") then Some TFalse
  else if decide (w = js "null") then Some TNull
  else if is_number w then Some (TNumber w)
  else None.

(** Between two tokens. *)
Definition lex_start (c : N) : option (lexer * list token) :=
  if is_ws c then Some (LStart, [])
  else if c =? 34 then Some (LString [], [])
  else if is_word c then Some (LWord [c], [])
  else t ← punctuation c; Some (LStart, [t]).

(** The accumulators hold their code units last first. *)
Definition lex_step (st : lexer) (c : N) : option (lexer * list token) :=
  match st with
  | LStart => lex_start c
  | LWord acc =>
      if is_word c then Some (LWord (c :: acc), [])
      else
        t ← word_token (reverse acc);
        '(st', ts) ← lex_start c;
        Some (st', t :: ts)
  | LString acc =>
      if c =? 34 then Some (LStart, [TString (reverse acc)])
      else if c =? 92 then Some (LEscape acc, [])
      else if c <? 32 then None
      else Some (LString (c :: acc), [])
  | LEscape acc =>
      if c =? 117 then Some (LUnicode acc 0%nat 0, [])
      else e ← escape c; Some (LString (e :: acc), [])
  | LUnicode acc seen code =>
      h ← hex_value c;
      let code' := 16 * code + h in
      if decide (seen = 3%nat) then Some (LString (code' :: acc), [])
      else Some (LUnicode acc (S seen) code', [])
  end.

Fixpoint lex (st : lexer) (text : jsstring) : option (list token) :=
  match text with
  | c :: rest =>
      '(st', ts) ← lex_step st c;
      more ← lex st' rest;
      Some (ts ++ more)
  | [] =>
      match st with
      | LStart => Some []
      | LWord acc => t ← word_token (reverse acc); Some [t]
      | _ => None
      end
  end.

(** *** The parser, one token at a time

    The containers that are open, innermost first: an array with the
    elements read so far (last first), an object with the properties read
    so far and the key that waits for its value. *)

Inductive frame : Type :=
| FArray (elems : list json)
| FObject (props : gmap jsstring json) (key : option jsstring).

(** What may come next. *)
Inductive mode : Type :=
| MValue
| MFirst
| MKey
| MColon
| MNext
| MDone (v : json).

(** A value is complete: it is the result, the next element of the array
    around it, or the value of the pending key of the object around it (a
    key that repeats keeps its last value). *)
Definition complete (v : json) (stack : list frame) : option (list frame * mode) :=
  match stack with
  | [] => Some ([], MDone v)
  | FArray elems :: stack' => Some (FArray (v :: elems) :: stack', MNext)
  | FObject props (Some k) :: stack' =>
      Some (FObject (<[k := v]> props) None :: stack', MNext)
  | FObject _ None :: _ => None
  end.

Definition start_value (t : token) (stack : list frame) : option (list frame * mode) :=
  match t with
  | TNull => complete JNull stack
  | TTrue => complete (JBool true) stack
  | TFalse => complete (JBool false) stack
  | TNumber lexeme => complete (JNum lexeme) stack
  | TString s => complete (JStr s) stack
  | TLBracket => Some (FArray [] :: stack, MFirst)
  | TLBrace => Some (FObject ∅ None :: stack, MFirst)
  | _ => None
  end.

Definition close (t : token) (stack : list frame) : option (list frame * mode) :=
  match t, stack with
  | TRBracket, FArray elems :: stack' => complete (JArr (reverse elems)) stack'
  | TRBrace, FObject props None :: stack' => complete (JObj props) stack'
  | _, _ => None
  end.

Definition start_key (t : token) (stack : list frame) : option (list frame * mode) :=
  match t, stack with
  | TString k, FObject props None :: stack' =>
      Some (FObject props (Some k) :: stack', MColon)
  | _, _ => None
  end.

Definition parse_step (st : list frame * mode) (t : token) : option (list frame * mode) :=
  let '(stack, m) := st in
  match m with
  | MValue => start_value t stack
  | MFirst =>
      match stack with
      | FArray _ :: _ =>
          match t with TRBracket => close t stack | _ => start_value t stack end
      | FObject _ _ :: _ =>
          match t with TRBrace => close t stack | _ => start_key t stack end
      | [] => None
      end
  | MKey => start_key t stack
  | MColon => match t with TColon => Some (stack, MValue) | _ => None end
  | MNext =>
      match t, stack with
      | TComma, FArray _ :: _ => Some (stack, MValue)
      | TComma, FObject _ _ :: _ => Some (stack, MKey)
      | _, _ => close t stack
      end
  | MDone _ => None
  end.

Fixpoint parse_tokens (st : list frame * mode) (ts : list token) : option json :=
  match ts with
  | t :: rest => st' ← parse_step st t; parse_tokens st' rest
  | [] => match st with ([], MDone v) => Some v | _ => None end
  end.

(** [JSON.parse(text)], without a reviver: the value the text denotes, or a
    [SyntaxError] when the text is not JSON. *)
Definition parse (text : jsstring) : completion json :=
  match ts ← lex LStart text; parse_tokens ([], MValue) ts with
  | Some v => Normal v
  | None => Throw SyntaxError
  end.

End JSON.


(** ** Property access and string conversion *)

(** [v.k] for a property name [k] that no built-in prototype defines, as
    [error] and [code] are: the own property of an object, [undefined] on
    any other defined value, a [TypeError] on [null] and [undefined]. *)
Definition Get (v : value) (k : jsstring) : completion value :=
  match v with
  | VUndefined | VJson JNull => Throw TypeError
  | VJson (JObj props) =>
      Normal (match props !! k with Some j => VJson j | None => VUndefined end)
  | VJson _ => Normal VUndefined
  end.

(** [v !== undefined]. *)
Definition defined (v : value) : bool :=
  match v with VUndefined => false | VJson _ => true end.

(** Source lines 3-7:
    [const isError = res => res.error !== undefined && res.code !== undefined] *)
Definition isError (res : json) : completion bool :=
  error ← Get (VJson res) (js "error");
  if defined error
  then code ← Get (VJson res) (js "code"); Normal (defined code)
  else Normal false.

(** ** Promises *)

(** The state of a promise. *)
Inductive state : Type :=
| Pending
| Fulfilled (v : json)
| Rejected (reason : Error).

(** Code that runs against a promise: it may settle the promise, and it
    returns or throws. *)
Definition Js (A : Type) : Type := state → state * completion A.

#[global] Instance Js_ret : MRet Js := λ A a p, (p, Normal a).

#[global] Instance Js_bind : MBind Js :=
  λ A B f m p,
    match m p with
    | (p', Normal a) => f a p'
    | (p', Throw e) => (p', Throw e)
    end.

(** An expression evaluated for its completion; the promise is untouched. *)
Definition eval {A} (c : completion A) : Js A := λ p, (p, c).

(** [resolve(v)], for a value that is not a thenable (no JSON value is):
    a pending promise is fulfilled, a settled one is left as it is. *)
Definition resolve (v : json) : Js unit :=
  λ p, (match p with Pending => Fulfilled v | _ => p end, Normal ()).

(** [reject(e)]. *)
Definition reject (e : Error) : Js unit :=
  λ p, (match p with Pending => Rejected e | _ => p end, Normal ()).

(** ** Requests *)

(** [Buffer]: the bytes it holds. *)
Definition Buffer : Type := list Byte.byte.

(** [NodeJS.ReadableStream]: the chunks it will yield. *)
Record ReadableStream : Type := mkStream { chunks : list Buffer }.

(** What a request's [body] option may hold. *)
Inductive payload : Type :=
| OfBuffer (bin : Buffer)
| OfStream (stream : ReadableStream).

(** An object literal: its properties are defined in order, a key that
    repeats keeps its last value. *)
Definition object {V} (l : list (jsstring * V)) : gmap jsstring V :=
  fold_left (λ m kv, <[kv.1 := kv.2]> m) l ∅.

(** The options object the operations hand to [request]; [body] is [None]
    when the literal has no such key. *)
Record options : Type := mkOptions {
  url : jsstring;
  method : jsstring;
  headers : gmap jsstring jsstring;
  qs : gmap jsstring value;
  body : option payload;
}.

(** The callback [request] is given.  The library calls it once, after the
    executor has returned, with [error] either [null] ([None]) or the
    [Error] of the transport, the response message, and its body. *)
Definition callback : Type := option Error → value → jsstring → Js unit.

(** The call [request(options, handler)]. *)
Record request_call : Type := request {
  sent : options;
  on_reply : callback;
}.

(** [new Promise(executor)], for an executor whose one effect is a call of
    [request]. *)
Record Promise : Type := new_Promise { executor : request_call }.

(** The promise once the library has called back with [(error, res, body)]:
    its state, and how the callback completed.  The callback runs from the
    event loop, not inside the executor, so an exception it throws is not
    turned into a rejection: it escapes, and the promise stays as it was. *)
Definition settle (p : Promise) (error : option Error) (res : value)
    (body : jsstring) : state * completion unit :=
  on_reply (executor p) error res body Pending.

(** A rendering of numbers for the closed examples at the end: the literal
    as written, which is what [Number::toString] gives for a literal in
    canonical form such as [400] or [1.5].  No example converts any other
    number to a string. *)
Definition render_as_written (lexeme : jsstring) : jsstring := lexeme.

(** A conversion of arrays for the closed examples at the end, none of
    which converts an array: that of an engine with no stack left for it. *)
Definition no_room_for_arrays (elems : list json) : completion jsstring :=
  Throw RangeError.

(** ** The client *)

Section Client.

(** [Number::toString] on the number a numeric literal denotes.  Neither
    the double a literal rounds to nor its shortest decimal form is
    computed here: the client holds for any such function. *)
Variable NumberToString : jsstring → jsstring.

(** [Array.prototype.toString] on the array of the given elements.  The
    engine joins the conversions of the elements with commas, converting
    nested arrays in nested calls.  It throws the [TypeError] of an element
    that does not convert, and a [RangeError] when the nesting exhausts its
    call stack or the string outgrows what it can hold.  How far an engine
    gets is its own affair: the client is stated for any such function,
    and promises nothing that depends on the conversion of an array. *)
Variable ArrayToString : list json → completion jsstring.

(** [ToString(j)], as a template literal applies it.  A plain object is
    [[object Object]], unless it has an own [toString] property: that one
    shadows the inherited method and, being no function, makes the
    conversion fail with a [TypeError] ([valueOf] returns the object
    itself, which is no primitive). *)
Definition ToString (j : json) : completion jsstring :=
  match j with
  | JNull => Normal (js "null")
  | JBool true => Normal (js "true")
  | JBool false => Normal (js "false")
  | JNum lexeme => Normal (NumberToString lexeme)
  | JStr s => Normal s
  | JArr elems => ArrayToString elems
  | JObj props =>
      match props !! js "toString" with
      | Some _ => Throw TypeError
      | None => Normal (js "[object Object]")
      end
  end.

Definition ToString_value (v : value) : completion jsstring :=
  match v with
  | VUndefined => Normal (js "undefined")
  | VJson j => ToString j
  end.

(** The template literal [`${response.code}: ${response.error}`]. *)
Definition template (response : json) : completion jsstring :=
  code ← Get (VJson response) (js "code");
  c ← ToString_value code;
  error ← Get (VJson response) (js "error");
  e ← ToString_value error;
  Normal (c ++ js ": " ++ e).

(** Source lines 19-52: [speech(token, bin, context, msg_id, thread_id, n)]. *)
Definition speech (token : jsstring) (bin : Buffer)
    (context msg_id thread_id n : value) : Promise :=
  new_Promise (
    let options := {|
      url := js "https://api.wit.ai/speech";
      method := js "POST";
      headers := object [
        (js "Content-Type", js "audio/wav");
        (js "Authorization", js "Bearer " ++ token);
        (js "Accept", js "application/json")
      ];
      qs := object [
        (js "context", context);
        (js "msg_id", msg_id);
        (js "n", n)
      ];
      body := Some (OfBuffer bin)
    |} in
    let handler : callback := λ error res body,
      match error with
      | Some e => reject e
      | None =>
          response ← eval (JSON.parse body);
          failed ← eval (isError response);
          if failed : bool
          then msg ← eval (template response); reject (new_Error msg)
          else resolve response
      end in
    request options handler).

(** Source lines 64-98: [stream(token, stream, context, msg_id, thread_id, n)]. *)
Definition stream (token : jsstring) (stream : ReadableStream)
    (context msg_id thread_id n : value) : Promise :=
  new_Promise (
    let options := {|
      url := js "https://api.wit.ai/speech";
      method := js "POST";
      headers := object [
        (js "Content-Type", js "audio/wav");
        (js "Transfer-encoding", js "chunked");
        (js "Authorization", js "Bearer " ++ token);
        (js "Accept", js "application/json")
      ];
      qs := object [
        (js "context", context);
        (js "msg_id", msg_id);
        (js "n", n)
      ];
      body := Some (OfStream stream)
    |} in
    let handler : callback := λ error res body,
      match error with
      | Some e => reject e
      | None =>
          response ← eval (JSON.parse body);
          failed ← eval (isError response);
          if failed : bool
          then msg ← eval (template response); reject (new_Error msg)
          else resolve response
      end in
    request options handler).

(** Source lines 111-144:
    [text(token, q, context, msg_id, thread_id, n, verbose)]. *)
Definition text (token : jsstring)
    (q context msg_id thread_id n verbose : value) : Promise :=
  new_Promise (
    let options := {|
      url := js "https://api.wit.ai/message";
      method := js "GET";
      headers := object [
        (js "Authorization", js "Bearer " ++ token);
        (js "Accept", js "application/json")
      ];
      qs := object [
        (js "q", q);
        (js "context", context);
        (js "msg_id", msg_id);
        (js "n", n);
        (js "verbose", verbose)
      ];
      body := None
    |} in
    let handler : callback := λ error res body,
      match error with
      | Some e => reject e
      | None =>
          response ← eval (JSON.parse body);
          failed ← eval (isError response);
          if failed : bool
          then msg ← eval (template response); reject (new_Error msg)
          else resolve response
      end in
    request options handler).

(** An invocation of one of the three exported operations. *)
Inductive invocation : Type :=
| call_speech (token : jsstring) (bin : Buffer)
    (context msg_id thread_id n : value)
| call_stream (token : jsstring) (audio : ReadableStream)
    (context msg_id thread_id n : value)
| call_text (token : jsstring) (q context msg_id thread_id n verbose : value).

Definition invoke (i : invocation) : Promise :=
  match i with
  | call_speech token bin context msg_id thread_id n =>
      speech token bin context msg_id thread_id n
  | call_stream token audio context msg_id thread_id n =>
      stream token audio context msg_id thread_id n
  | call_text token q context msg_id thread_id n verbose =>
      text token q context msg_id thread_id n verbose
  end.

(** The options a promise's executor sent. *)
Definition options_of (p : Promise) : options := sent (executor p).

(** ** Vocabulary of the properties *)

(** The field [k] of a parsed response, when the response is an object
    that has it. *)
Definition field (res : json) (k : jsstring) : option json :=
  match res with
  | JObj props => props !! k
  | _ => None
  end.

Definition has_field (res : json) (k : jsstring) : bool :=
  bool_decide (is_Some (field res k)).

(** The response carries the pair of fields that marks an API error. *)
Definition has_error_pair (res : json) : bool :=
  has_field res (js "error") && has_field res (js "code").

Definition is_string (j : json) : bool :=
  match j with JStr _ => true | _ => false end.

(** The pair is there and both of its values are strings. *)
Definition has_string_pair (res : json) : bool :=
  match field res (js "error"), field res (js "code") with
  | Some e, Some c => is_string e && is_string c
  | _, _ => false
  end.

Definition is_array (j : json) : bool :=
  match j with JArr _ => true | _ => false end.

(** The values whose conversion to a string succeeds in every engine:
    strings, numbers, booleans, [null], and objects without an own
    [toString] property.  An array is not among them: its conversion takes
    stack and string space with its depth and size, and may run out of
    either. *)
Definition printable (j : json) : bool :=
  match j with
  | JArr _ => false
  | JObj props => bool_decide (props !! js "toString" = None)
  | _ => true
  end.

(** The three ways a promise settles once the callback has returned. *)
Inductive way : Type :=
| transport_rejection
| api_rejection
| resolution.

(** Rejected with the transport error itself; rejected with the [Error]
    combined from the [code] and the [error] of the parsed response;
    fulfilled with the parsed response, which carries no error pair. *)
Definition settled (w : way) (i : invocation) (error : option Error)
    (res : value) (body : jsstring) : Prop :=
  match w with
  | transport_rejection =>
      ∃ e, error = Some e ∧
           settle (invoke i) error res body = (Rejected e, Normal ())
  | api_rejection =>
      ∃ response e c se sc,
        error = None ∧ JSON.parse body = Normal response ∧
        field response (js "error") = Some e ∧
        field response (js "code") = Some c ∧
        ToString e = Normal se ∧ ToString c = Normal sc ∧
        settle (invoke i) error res body
        = (Rejected (new_Error (sc ++ js ": " ++ se)), Normal ())
  | resolution =>
      ∃ response,
        error = None ∧ JSON.parse body = Normal response ∧
        has_error_pair response = false ∧
        settle (invoke i) error res body = (Fulfilled response, Normal ())
  end.

(** A reply the callback is written for: a transport error, or a body that
    is JSON, is not [null] and, where it carries the error pair, carries
    printable values in it (no array, no object with an own [toString]). *)
Definition expected_reply (error : option Error) (body : jsstring) : Prop :=
  match error with
  | Some _ => True
  | None =>
      ∃ response,
        JSON.parse body = Normal response ∧ response ≠ JNull ∧
        ∀ e c, field response (js "error") = Some e →
               field response (js "code") = Some c →
               printable e = true ∧ printable c = true
  end.

(** White space, as JSON has it: tab, line feed, carriage return, space. *)
Definition blank (text : jsstring) : Prop :=
  Forall (λ c, JSON.is_ws c = true) text.

(** The code units a JSON text can begin with, white space apart: an
    opening brace or bracket, a double quote, a minus sign, a digit, and
    the first letters of [true], [false] and [null]. *)
Definition begins_json (c : N) : bool :=
  (c =? 123) || (c =? 91) || (c =? 34) || (c =? 45) || JSON.is_digit c
  || (c =? 116) || (c =? 102) || (c =? 110).

(** The body does not parse to a response that carries the error pair
    with an array in it. *)
Definition no_array_in_pair (body : jsstring) : Prop :=
  ∀ response e c,
    JSON.parse body = Normal response →
    field response (js "error") = Some e →
    field response (js "code") = Some c →
    is_array e = false ∧ is_array c = false.

(** Two requests that differ at most in their [Authorization] header. *)
Definition same_but_authorization (o o' : options) : Prop :=
  url o = url o' ∧ method o = method o' ∧ qs o = qs o' ∧ body o = body o' ∧
  delete (js "Authorization") (headers o)
  = delete (js "Authorization") (headers o').

(** ** [JSON.parse] on examples *)

Example parse_nested :
  JSON.parse (dq " {'a' : [1, -2.5e+3, true, null], 'b' : {}} ")
  = Normal (JObj (object [
      (js "a", JArr [JNum (js "1"); JNum (js "-2.5e+3"); JBool true; JNull]);
      (js "b", JObj ∅)])).
Proof. vm_compute. reflexivity. Qed.

Example parse_scalar : JSON.parse (dq "'wit'") = Normal (JStr (js "wit")).
Proof. vm_compute. reflexivity. Qed.

Example parse_escapes :
  JSON.parse (dq "'a\tb\\c\/d'") = Normal (JStr [97; 9; 98; 92; 99; 47; 100]).
Proof. vm_compute. reflexivity. Qed.

Example parse_repeated_key :
  JSON.parse (dq "{'n':1,'n':2}") = Normal (JObj (object [(js "n", JNum (js "2"))])).
Proof. vm_compute. reflexivity. Qed.

Example parse_rejects :
  Forall (λ text, JSON.parse (dq text) = Throw SyntaxError)
    [""; " "; "[1,]"; "{'a':1,}"; "{'a'}"; "{a:1}"; "[1 2]"; "1 2"; "01";
     "1."; ".5"; "+1"; "-"; "1e"; "tru"; "True"; "NaN"; "undefined"; "'a";
     "'\x'"; "[1}"; "[[1]"; "[1]]"; "<html>"]%string.
Proof. repeat constructor. Qed.

(** ** Classification of a response *)

Lemma isError_null : isError JNull = Throw TypeError.
Proof. reflexivity. Qed.

Lemma has_field_true res k : has_field res k = true ↔ is_Some (field res k).
Proof. unfold has_field. apply bool_decide_eq_true. Qed.

Lemma Get_field res k :
  res ≠ JNull →
  Get (VJson res) k =
    Normal (match field res k with Some j => VJson j | None => VUndefined end).
Proof. destruct res; intros Hnull; try reflexivity. by destruct Hnull. Qed.

Lemma defined_field res k :
  defined (match field res k with Some j => VJson j | None => VUndefined end)
  = has_field res k.
Proof.
  unfold has_field. by destruct (field res k).
Qed.

Lemma isError_not_null res :
  res ≠ JNull → isError res = Normal (has_error_pair res).
Proof.
  intros Hnull. unfold isError, has_error_pair.
  rewrite !Get_field by done. simpl.
  rewrite !defined_field.
  by destruct (has_field res (js "error")).
Qed.

(** ** String conversion *)

Lemma ToString_total (j : json) :
  printable j = true → ∃ s, ToString j = Normal s.
Proof.
  destruct j as [|[]|lexeme|s|elems|props]; simpl; intros Hp;
    try done; try by eexists.
  apply bool_decide_eq_true in Hp. rewrite Hp. by eexists.
Qed.

(** A value that is no array and is not printable is an object with an
    own [toString] property: its conversion fails with a [TypeError]. *)
Lemma ToString_unprintable (j : json) :
  is_array j = false → printable j = false → ToString j = Throw TypeError.
Proof.
  destruct j as [|[]|lexeme|s|elems|props]; simpl; intros Harr Hp; try done.
  apply bool_decide_eq_false in Hp.
  by destruct (props !! js "toString").
Qed.

Lemma ToString_converts (j : json) (s : jsstring) :
  is_array j = false → ToString j = Normal s → printable j = true.
Proof.
  intros Harr Hs. destruct (printable j) eqn:Hp; [done|].
  by rewrite (ToString_unprintable j Harr Hp) in Hs.
Qed.

(** ** The callback, case by case *)

Lemma settle_transport_error i e res body :
  settle (invoke i) (Some e) res body = (Rejected e, Normal ()).
Proof. by destruct i. Qed.

Lemma settle_reply i res body :
  settle (invoke i) None res body =
    match JSON.parse body with
    | Throw x => (Pending, Throw x)
    | Normal response =>
        match isError response with
        | Throw x => (Pending, Throw x)
        | Normal false => (Fulfilled response, Normal ())
        | Normal true =>
            match template response with
            | Throw x => (Pending, Throw x)
            | Normal msg => (Rejected (new_Error msg), Normal ())
            end
        end
    end.
Proof.
  destruct i; unfold settle; cbn -[JSON.parse isError template];
    unfold mbind, Js_bind, eval;
    (destruct (JSON.parse body) as [response|x]; [|done]);
    (destruct (isError response) as [[]|x]; [|done|done]);
    by destruct (template response).
Qed.

Lemma settle_not_json i res body x :
  JSON.parse body = Throw x →
  settle (invoke i) None res body = (Pending, Throw x).
Proof. intros Hparse. by rewrite settle_reply, Hparse. Qed.

Lemma settle_null i res body :
  JSON.parse body = Normal JNull →
  settle (invoke i) None res body = (Pending, Throw TypeError).
Proof. intros Hparse. by rewrite settle_reply, Hparse. Qed.

Lemma settle_resolved i res body response :
  JSON.parse body = Normal response →
  isError response = Normal false →
  settle (invoke i) None res body = (Fulfilled response, Normal ()).
Proof. intros Hparse Hok. by rewrite settle_reply, Hparse, Hok. Qed.

Lemma settle_rejected i res body response msg :
  JSON.parse body = Normal response →
  isError response = Normal true →
  template response = Normal msg →
  settle (invoke i) None res body = (Rejected (new_Error msg), Normal ()).
Proof.
  intros Hparse Hfailed Hmsg. by rewrite settle_reply, Hparse, Hfailed, Hmsg.
Qed.

(** The template on a response that carries the pair. *)
Lemma template_fields response e c se sc :
  field response (js "error") = Some e →
  field response (js "code") = Some c →
  ToString e = Normal se →
  ToString c = Normal sc →
  template response = Normal (sc ++ js ": " ++ se).
Proof.
  intros He Hc Hse Hsc.
  assert (response ≠ JNull) as Hnull by (by intros ->).
  unfold template. rewrite !Get_field, He, Hc by done.
  simpl. by rewrite Hsc, Hse.
Qed.

Lemma has_error_pair_fields response :
  has_error_pair response = true ↔
  ∃ e c, field response (js "error") = Some e ∧
         field response (js "code") = Some c.
Proof.
  unfold has_error_pair. rewrite andb_true_iff, !has_field_true.
  split.
  - intros [[e He] [c Hc]]. by exists e, c.
  - intros (e & c & He & Hc). split; by eexists.
Qed.

Lemma has_error_pair_intro response e c :
  field response (js "error") = Some e →
  field response (js "code") = Some c →
  has_error_pair response = true.
Proof. intros He Hc. apply has_error_pair_fields. by exists e, c. Qed.

(** ** Error handling *)

(** C1 (as amended).  Let the body parse to a response that has both an
    [error] field and a [code] field, let neither value be an array, and
    let [ToString] convert the two values without raising (a string
    converts to itself; numbers, booleans, [null] and objects without an
    own [toString] property convert too).  Then each of [speech], [stream]
    and [text] rejects with an [Error] whose message is the converted code,
    a colon and a space, then the converted error. *)
Theorem api_error_rejects_with_code_and_message
    (i : invocation) (res : value) (body : jsstring)
    (response e c : json) (se sc : jsstring) :
  JSON.parse body = Normal response →
  field response (js "error") = Some e →
  field response (js "code") = Some c →
  is_array e = false →
  is_array c = false →
  ToString e = Normal se →
  ToString c = Normal sc →
  settle (invoke i) None res body
  = (Rejected (new_Error (sc ++ js ": " ++ se)), Normal ()) ∧
  message (new_Error (sc ++ js ": " ++ se)) = sc ++ js ": " ++ se.
Proof.
  intros Hparse He Hc _ _ Hse Hsc. split; [|done].
  assert (response ≠ JNull) as Hnull by (by intros ->).
  apply settle_rejected with response; [done| |].
  - rewrite isError_not_null by done. f_equal.
    by apply has_error_pair_intro with e c.
  - by apply template_fields with e c.
Qed.

(** C2 (as amended).  For every invocation whose reply is a transport
    error, or a body that is JSON, is not [null] and, where it carries the
    error pair, carries printable values in it (strings, numbers, booleans,
    [null], objects without an own [toString]), the callback returns and the
    promise is settled in exactly one of three ways: rejected with the
    transport error itself; rejected with the [Error] combined from [code]
    and [error]; fulfilled with the parsed response. *)
Theorem expected_reply_settles_in_one_way
    (i : invocation) (error : option Error) (res : value) (body : jsstring) :
  expected_reply error body → exists ! w, settled w i error res body.
Proof.
  intros Hreply.
  assert (∃ w, settled w i error res body) as [w Hw].
  { destruct error as [e|]; simpl in Hreply.
    - exists transport_rejection, e. split; [done|].
      apply settle_transport_error.
    - destruct Hreply as (response & Hparse & Hnull & Hprint).
      destruct (has_error_pair response) eqn:Hpair.
      + apply has_error_pair_fields in Hpair as (e & c & He & Hc).
        destruct (Hprint e c He Hc) as [Hpe Hpc].
        apply ToString_total in Hpe as [se Hse].
        apply ToString_total in Hpc as [sc Hsc].
        exists api_rejection, response, e, c, se, sc.
        repeat split; try done.
        apply settle_rejected with response; [done| |].
        * rewrite isError_not_null by done. f_equal.
          by apply has_error_pair_intro with e c.
        * by apply template_fields with e c.
      + exists resolution, response. repeat split; try done.
        apply settle_resolved; [done|].
        by rewrite isError_not_null, Hpair. }
  exists w. split; [done|]. intros w' Hw'.
  destruct w, w'; simpl in Hw, Hw'; try done.
  - destruct Hw as (e & -> & _).
    by destruct Hw' as (response & e' & c & se & sc & [=] & _).
  - destruct Hw as (e & -> & _). by destruct Hw' as (response & [=] & _).
  - destruct Hw as (response & e & c & se & sc & -> & _).
    by destruct Hw' as (e' & [=] & _).
  - destruct Hw as (response & e & c & se & sc & _ & Hparse & He & Hc & _).
    destruct Hw' as (response' & _ & Hparse' & Hpair & _).
    rewrite Hparse in Hparse'. injection Hparse' as <-.
    by rewrite (has_error_pair_intro response e c He Hc) in Hpair.
  - destruct Hw as (response & -> & _). by destruct Hw' as (e & [=] & _).
  - destruct Hw as (response & _ & Hparse & Hpair & _).
    destruct Hw' as (response' & e & c & se & sc & _ & Hparse' & He & Hc & _).
    rewrite Hparse in Hparse'. injection Hparse' as <-.
    by rewrite (has_error_pair_intro response e c He Hc) in Hpair.
Qed.

(** C3 (as amended).  For every body that is JSON, does not parse to
    [null] and does not carry the error pair, each of [speech], [stream]
    and [text] fulfils its promise with the parsed value itself. *)
Theorem plain_response_resolves_unchanged
    (i : invocation) (res : value) (body : jsstring) (response : json) :
  JSON.parse body = Normal response →
  response ≠ JNull →
  has_error_pair response = false →
  settle (invoke i) None res body = (Fulfilled response, Normal ()).
Proof.
  intros Hparse Hnull Hpair. apply settle_resolved; [done|].
  by rewrite isError_not_null, Hpair.
Qed.

(** C4.  When the request layer reports an error, each of [speech],
    [stream] and [text] rejects with that very error, whatever the body
    is: nothing is parsed and no API error is looked for. *)
Theorem transport_error_rejects_as_is
    (i : invocation) (e : Error) (res : value) (body : jsstring) :
  settle (invoke i) (Some e) res body = (Rejected e, Normal ()).
Proof. apply settle_transport_error. Qed.

(** C5 (as amended).  A parsed response other than [null] is classified
    as an API error exactly when it has both an [error] field and a [code]
    field, whatever JSON values the two hold; a response that misses
    either field is not an API error. *)
Theorem isError_iff_both_fields (res : json) :
  res ≠ JNull →
  isError res = Normal (has_error_pair res) ∧
  (isError res = Normal true ↔
   ∃ e c, field res (js "error") = Some e ∧ field res (js "code") = Some c).
Proof.
  intros Hnull. rewrite isError_not_null by done. split; [done|].
  rewrite <- has_error_pair_fields.
  split; [by intros [= ->]|by intros ->].
Qed.

(** ** The requests *)

Lemma dom_object {V} (l : list (jsstring * V)) :
  dom (object l) = list_to_set (l.*1).
Proof.
  unfold object. induction l as [|[k v] l IH] using rev_ind; [done|].
  rewrite fold_left_app, fmap_app, list_to_set_app_L. simpl.
  rewrite dom_insert_L, IH. set_solver.
Qed.

(** C6.  [text] builds a GET request to the message endpoint whose query
    parameters are exactly [q], [context], [msg_id], [n] and [verbose],
    each holding the argument of that name, and gives it no body.
    [speech] and [stream] build POST requests to the speech endpoint whose
    body is the audio buffer or stream; their query parameters are exactly
    [context], [msg_id] and [n], and are the same whatever the audio is. *)
Theorem text_queries_and_audio_is_the_body
    (token : jsstring) (bin : Buffer) (audio : ReadableStream)
    (q context msg_id thread_id n verbose : value) :
  (let o := options_of (text token q context msg_id thread_id n verbose) in
   method o = js "GET" ∧ url o = js "https://api.wit.ai/message" ∧
   dom (qs o)
   = {[js "q"; js "context"; js "msg_id"; js "n"; js "verbose"]} ∧
   qs o !! js "q" = Some q ∧ qs o !! js "context" = Some context ∧
   qs o !! js "msg_id" = Some msg_id ∧ qs o !! js "n" = Some n ∧
   qs o !! js "verbose" = Some verbose ∧
   body o = None) ∧
  (let o := options_of (speech token bin context msg_id thread_id n) in
   method o = js "POST" ∧ url o = js "https://api.wit.ai/speech" ∧
   body o = Some (OfBuffer bin) ∧
   dom (qs o) = {[js "context"; js "msg_id"; js "n"]} ∧
   ∀ bin', qs (options_of (speech token bin' context msg_id thread_id n))
           = qs o) ∧
  (let o := options_of (stream token audio context msg_id thread_id n) in
   method o = js "POST" ∧ url o = js "https://api.wit.ai/speech" ∧
   body o = Some (OfStream audio) ∧
   dom (qs o) = {[js "context"; js "msg_id"; js "n"]} ∧
   ∀ audio', qs (options_of (stream token audio' context msg_id thread_id n))
             = qs o).
Proof.
  repeat split; try reflexivity;
    cbn [options_of sent executor text speech stream qs];
    rewrite dom_object; set_solver.
Qed.

Lemma speech_headers_inv token bin context msg_id thread_id n k v :
  headers (options_of (speech token bin context msg_id thread_id n)) !! k
  = Some v →
  (k = js "Content-Type" ∧ v = js "audio/wav")
  ∨ (k = js "Authorization" ∧ v = js "Bearer " ++ token)
  ∨ (k = js "Accept" ∧ v = js "application/json").
Proof.
  cbn [options_of sent executor speech headers].
  unfold object. cbn [fold_left fst snd]. intros Hkv.
  apply lookup_insert_Some in Hkv as [[<- <-]|[_ Hkv]]; [by auto|].
  apply lookup_insert_Some in Hkv as [[<- <-]|[_ Hkv]]; [by auto|].
  apply lookup_insert_Some in Hkv as [[<- <-]|[_ Hkv]]; [by auto|].
  by rewrite lookup_empty in Hkv.
Qed.

(** C7.  The request built by [stream] has the header
    [Transfer-encoding: chunked].  The request built by [speech] has no
    header named [Transfer-encoding], in any letter case, and no header
    whose value is [chunked]. *)
Theorem stream_is_chunked_speech_is_not
    (token : jsstring) (bin : Buffer) (audio : ReadableStream)
    (context msg_id thread_id n : value) :
  headers (options_of (stream token audio context msg_id thread_id n))
    !! js "Transfer-encoding" = Some (js "chunked") ∧
  ∀ k v,
    headers (options_of (speech token bin context msg_id thread_id n)) !! k
    = Some v →
    lower k ≠ js "transfer-encoding" ∧ v ≠ js "chunked".
Proof.
  split; [reflexivity|].
  intros k v Hkv.
  apply speech_headers_inv in Hkv as [[-> ->]|[[-> ->]|[-> ->]]];
    split; vm_compute; discriminate.
Qed.

(** C8.  For equal arguments the request built by [stream] has the URL,
    the method and the query parameters of the one built by [speech]; its
    headers are those of [speech] with [Transfer-encoding: chunked] added,
    a header [speech] does not have; its body is the readable stream where
    that of [speech] is the buffer.  The two callbacks are the same
    function of the transport error and the response body. *)
Theorem stream_is_speech_but_chunked
    (token : jsstring) (bin : Buffer) (audio : ReadableStream)
    (context msg_id thread_id n : value) :
  let by_speech := speech token bin context msg_id thread_id n in
  let by_stream := stream token audio context msg_id thread_id n in
  url (options_of by_stream) = url (options_of by_speech) ∧
  method (options_of by_stream) = method (options_of by_speech) ∧
  qs (options_of by_stream) = qs (options_of by_speech) ∧
  headers (options_of by_stream)
  = <[js "Transfer-encoding" := js "chunked"]> (headers (options_of by_speech)) ∧
  headers (options_of by_speech) !! js "Transfer-encoding" = None ∧
  body (options_of by_speech) = Some (OfBuffer bin) ∧
  body (options_of by_stream) = Some (OfStream audio) ∧
  on_reply (executor by_stream) = on_reply (executor by_speech) ∧
  ∀ error res body,
    settle by_stream error res body = settle by_speech error res body.
Proof.
  repeat split.
Qed.

(** C9.  The request built by [speech] or [stream] is a POST to
    [https://api.wit.ai/speech] with the headers [Content-Type: audio/wav],
    [Authorization: Bearer] followed by the credential and
    [Accept: application/json], and the query parameters [context],
    [msg_id] and [n].  The request built by [text] is a GET to
    [https://api.wit.ai/message] whose headers are [Authorization: Bearer]
    followed by the credential and [Accept: application/json], and no
    other. *)
Theorem requests_target_the_wit_endpoints
    (token : jsstring) (bin : Buffer) (audio : ReadableStream)
    (q context msg_id thread_id n verbose : value) :
  (∀ o,
     o = options_of (speech token bin context msg_id thread_id n) ∨
     o = options_of (stream token audio context msg_id thread_id n) →
     method o = js "POST" ∧ url o = js "https://api.wit.ai/speech" ∧
     headers o !! js "Content-Type" = Some (js "audio/wav") ∧
     headers o !! js "Authorization" = Some (js "Bearer " ++ token) ∧
     headers o !! js "Accept" = Some (js "application/json") ∧
     dom (qs o) = {[js "context"; js "msg_id"; js "n"]} ∧
     qs o !! js "context" = Some context ∧
     qs o !! js "msg_id" = Some msg_id ∧
     qs o !! js "n" = Some n) ∧
  (let o := options_of (text token q context msg_id thread_id n verbose) in
   method o = js "GET" ∧ url o = js "https://api.wit.ai/message" ∧
   headers o !! js "Authorization" = Some (js "Bearer " ++ token) ∧
   headers o !! js "Accept" = Some (js "application/json") ∧
   dom (headers o) = {[js "Authorization"; js "Accept"]}).
Proof.
  split.
  - intros o [-> | ->]; repeat split; try reflexivity;
      cbn [options_of sent executor speech stream qs];
      rewrite dom_object; set_solver.
  - repeat split;
      cbn [options_of sent executor text headers];
      first [reflexivity | rewrite dom_object; set_solver].
Qed.

(** C10.  Two invocations of the same operation that differ only in
    [thread_id] build the same request: the same URL, method, headers,
    query parameters and body.  No operation puts [thread_id] anywhere. *)
Theorem thread_id_is_not_sent
    (token : jsstring) (bin : Buffer) (audio : ReadableStream)
    (q context msg_id n verbose thread_id thread_id' : value) :
  options_of (speech token bin context msg_id thread_id n)
  = options_of (speech token bin context msg_id thread_id' n) ∧
  options_of (stream token audio context msg_id thread_id n)
  = options_of (stream token audio context msg_id thread_id' n) ∧
  options_of (text token q context msg_id thread_id n verbose)
  = options_of (text token q context msg_id thread_id' n verbose).
Proof. repeat split. Qed.

(** ** White space and first characters *)

Lemma is_ws_cases c :
  JSON.is_ws c = true → c = 9 ∨ c = 10 ∨ c = 13 ∨ c = 32.
Proof.
  unfold JSON.is_ws. rewrite !orb_true_iff, !N.eqb_eq. tauto.
Qed.

Lemma lex_blank_prefix ws text :
  blank ws → JSON.lex JSON.LStart (ws ++ text) = JSON.lex JSON.LStart text.
Proof.
  induction 1 as [|c ws Hc _ IH]; [done|].
  simpl. unfold JSON.lex_start. rewrite Hc. simpl. rewrite IH.
  by destruct (JSON.lex JSON.LStart text).
Qed.

(** At the end of the text, white space changes nothing: it ends a word
    as the end of the text does, and no string may end in it. *)
Lemma lex_blank st ws : blank ws → JSON.lex st ws = JSON.lex st [].
Proof.
  intros Hws. destruct st as [|acc|acc|acc|acc seen code].
  - induction Hws as [|c ws Hc _ IH]; [done|].
    simpl. unfold JSON.lex_start. rewrite Hc. simpl. by rewrite IH.
  - destruct Hws as [|c ws Hc Hws]; [done|].
    assert (JSON.lex JSON.LStart ws = Some []) as Hrest.
    { clear Hc. induction Hws as [|d ws Hd _ IH]; [done|].
      simpl. unfold JSON.lex_start. rewrite Hd. simpl. by rewrite IH. }
    simpl. unfold JSON.lex_start. rewrite Hc.
    assert (JSON.is_word c = false) as ->
      by (by destruct (is_ws_cases c Hc) as [-> | [-> | [-> | ->]]]).
    destruct (JSON.word_token (reverse acc)); simpl; [|done].
    by rewrite Hrest.
  - revert acc. induction Hws as [|c ws Hc _ IH]; intros acc; [done|].
    simpl. destruct (is_ws_cases c Hc) as [-> | [-> | [-> | ->]]]; simpl; try done.
    by rewrite IH.
  - destruct Hws as [|c ws Hc Hws]; [done|].
    simpl. by destruct (is_ws_cases c Hc) as [-> | [-> | [-> | ->]]].
  - destruct Hws as [|c ws Hc Hws]; [done|].
    simpl. by destruct (is_ws_cases c Hc) as [-> | [-> | [-> | ->]]].
Qed.

Lemma lex_blank_suffix st text ws :
  blank ws → JSON.lex st (text ++ ws) = JSON.lex st text.
Proof.
  intros Hws. revert st. induction text as [|c text IH]; intros st.
  - by apply lex_blank.
  - simpl. destruct (JSON.lex_step st c) as [[st' ts]|]; simpl; [|done].
    by rewrite IH.
Qed.

Lemma parse_blank_around ws text ws' :
  blank ws → blank ws' →
  JSON.parse (ws ++ text ++ ws') = JSON.parse text.
Proof.
  intros Hws Hws'. unfold JSON.parse.
  by rewrite lex_blank_prefix, lex_blank_suffix.
Qed.

Lemma parse_blank ws : blank ws → JSON.parse ws = Throw SyntaxError.
Proof.
  intros Hws. unfold JSON.parse. by rewrite lex_blank.
Qed.

(** A word the lexer accepts begins as a JSON value does. *)
Lemma word_token_begins c w t :
  JSON.word_token (c :: w) = Some t → begins_json c = true.
Proof.
  unfold JSON.word_token, begins_json.
  repeat case_decide;
    try (match goal with H : _ :: _ = js _ |- _ =>
           vm_compute in H; injection H as -> _
         end; done).
  destruct (JSON.is_number (c :: w)) eqn:Hnum; [|done]. intros _.
  simpl in Hnum. destruct (c =? 45); [by rewrite !orb_true_r|].
  simpl in Hnum. destruct (c =? 48) eqn:Hzero.
  - apply N.eqb_eq in Hzero as ->. done.
  - apply andb_true_iff in Hnum as [-> _]. by rewrite !orb_true_r.
Qed.

(** When the lexer gets through a text from inside a word, the word it
    was in, continued by some of the text, was accepted. *)
Lemma lex_word_accepted text acc ts :
  JSON.lex (JSON.LWord acc) text = Some ts →
  ∃ w t, JSON.word_token (reverse acc ++ w) = Some t.
Proof.
  revert acc ts. induction text as [|c text IH]; intros acc ts; simpl.
  - destruct (JSON.word_token (reverse acc)) as [t|] eqn:Ht; [|done].
    intros _. exists [], t. by rewrite app_nil_r.
  - destruct (JSON.is_word c); simpl.
    + destruct (JSON.lex (JSON.LWord (c :: acc)) text) as [more|] eqn:Hmore;
        [|done].
      intros _. destruct (IH _ _ Hmore) as (w & t & Ht).
      exists (c :: w), t. by rewrite reverse_cons, <- app_assoc in Ht.
    + destruct (JSON.word_token (reverse acc)) as [t|] eqn:Ht; [|done].
      intros _. exists [], t. by rewrite app_nil_r.
Qed.

Lemma parse_bad_start c text :
  JSON.is_ws c = false → begins_json c = false →
  JSON.parse (c :: text) = Throw SyntaxError.
Proof.
  intros Hws Hc. unfold JSON.parse. simpl. unfold JSON.lex_start.
  rewrite Hws.
  destruct (c =? 34) eqn:Hq.
  { apply N.eqb_eq in Hq as ->. done. }
  destruct (JSON.is_word c) eqn:Hword; simpl.
  - destruct (JSON.lex (JSON.LWord [c]) text) as [ts|] eqn:Hlex; [|done].
    destruct (lex_word_accepted _ _ _ Hlex) as (w & t & Ht).
    simpl in Ht. apply word_token_begins in Ht. by rewrite Ht in Hc.
  - destruct (JSON.punctuation c) as [t|] eqn:Hp; simpl; [|done].
    destruct (JSON.lex JSON.LStart text) as [ts|]; simpl; [|done].
    unfold JSON.punctuation, begins_json in *.
    destruct (c =? 123); [done|]. destruct (c =? 125); [by simplify_eq|].
    destruct (c =? 91); [done|]. destruct (c =? 93); [by simplify_eq|].
    destruct (c =? 58); [by simplify_eq|].
    destruct (c =? 44); by simplify_eq.
Qed.

(** ** The callback on every reply *)

Lemma parse_throws_SyntaxError body x :
  JSON.parse body = Throw x → x = SyntaxError.
Proof.
  unfold JSON.parse.
  destruct (ts ← JSON.lex JSON.LStart body;
            JSON.parse_tokens ([], JSON.MValue) ts); [done|].
  by intros [= <-].
Qed.

(** The whole of [settle] after a reply without transport error, by the
    shape of the parsed body. *)
Lemma settle_cases i res body :
  (JSON.parse body = Throw SyntaxError ∧
   settle (invoke i) None res body = (Pending, Throw SyntaxError))
  ∨ (JSON.parse body = Normal JNull ∧
     settle (invoke i) None res body = (Pending, Throw TypeError))
  ∨ (∃ response,
       JSON.parse body = Normal response ∧ response ≠ JNull ∧
       has_error_pair response = false ∧
       settle (invoke i) None res body = (Fulfilled response, Normal ()))
  ∨ (∃ response x,
       JSON.parse body = Normal response ∧
       has_error_pair response = true ∧
       template response = Throw x ∧
       settle (invoke i) None res body = (Pending, Throw x))
  ∨ (∃ response msg,
       JSON.parse body = Normal response ∧
       has_error_pair response = true ∧
       template response = Normal msg ∧
       settle (invoke i) None res body
       = (Rejected (new_Error msg), Normal ())).
Proof.
  rewrite settle_reply.
  destruct (JSON.parse body) as [response|x] eqn:Hparse.
  2:{ left. by rewrite (parse_throws_SyntaxError body x Hparse). }
  right.
  assert (response = JNull ∨ response ≠ JNull) as [->|Hnull]
    by (destruct response; (by left) || (by right)); [by left|].
  right. rewrite isError_not_null by done.
  destruct (has_error_pair response) eqn:Hpair.
  2:{ left. by exists response. }
  right. destruct (template response) as [msg|x] eqn:Hmsg.
  - right. by exists response, msg.
  - left. by exists response, x.
Qed.

(** The template on a response that carries the pair: the code is
    converted first, then the error. *)
Lemma template_results response e c :
  field response (js "error") = Some e →
  field response (js "code") = Some c →
  template response =
    match ToString c, ToString e with
    | Throw x, _ => Throw x
    | Normal sc, Throw x => Throw x
    | Normal sc, Normal se => Normal (sc ++ js ": " ++ se)
    end.
Proof.
  intros He Hc.
  assert (response ≠ JNull) as Hnull by (by intros ->).
  unfold template. rewrite !Get_field, He, Hc by done. simpl.
  destruct (ToString c); [|done]. simpl. by destruct (ToString e).
Qed.

(** An array in the pair whose conversion fails, as that of a deeply
    nested one does with a [RangeError]: the exception escapes the
    callback and the promise stays pending. *)
Lemma array_conversion_failure_escapes i res body response elems e x :
  JSON.parse body = Normal response →
  field response (js "code") = Some (JArr elems) →
  field response (js "error") = Some e →
  ArrayToString elems = Throw x →
  settle (invoke i) None res body = (Pending, Throw x).
Proof.
  intros Hparse Hc He Hx.
  assert (response ≠ JNull) as Hnull by (by intros ->).
  rewrite settle_reply, Hparse, isError_not_null by done.
  rewrite (has_error_pair_intro response e (JArr elems) He Hc).
  rewrite (template_results response e (JArr elems) He Hc). simpl.
  by rewrite Hx.
Qed.

(** X1.  The callback either returns with the promise settled, or throws
    with the promise still pending: it never returns leaving the promise
    pending, and it never throws after it has settled the promise. *)
Theorem callback_returns_iff_promise_settles
    (i : invocation) (error : option Error) (res : value) (body : jsstring) :
  (∃ st, settle (invoke i) error res body = (st, Normal ()) ∧ st ≠ Pending)
  ∨ (∃ x, settle (invoke i) error res body = (Pending, Throw x)).
Proof.
  destruct error as [e|].
  - left. exists (Rejected e). by rewrite settle_transport_error.
  - destruct (settle_cases i res body)
      as [[_ ->]|[[_ ->]|[(response & _ & _ & _ & ->)
         |[(response & x & _ & _ & _ & ->)
          |(response & msg & _ & _ & _ & ->)]]]].
    + right. by eexists.
    + right. by eexists.
    + left. by eexists.
    + right. by eexists.
    + left. by eexists.
Qed.

(** X2.  The promise is fulfilled with [v] exactly when there is no
    transport error and the body parses to [v], a value other than [null]
    that does not carry both [error] and [code]: nothing but the parsed
    body is ever resolved. *)
Theorem fulfilled_iff_plain_parsed_body
    (i : invocation) (error : option Error) (res : value) (body : jsstring)
    (v : json) :
  fst (settle (invoke i) error res body) = Fulfilled v ↔
  error = None ∧ JSON.parse body = Normal v ∧ v ≠ JNull ∧
  has_error_pair v = false.
Proof.
  split.
  - destruct error as [e|]; [by rewrite settle_transport_error|].
    destruct (settle_cases i res body)
      as [[_ ->]|[[_ ->]|[(response & Hparse & Hnull & Hpair & ->)
         |[(response & x & _ & _ & _ & ->)
          |(response & msg & _ & _ & _ & ->)]]]];
      simpl; try done.
    by intros [= <-].
  - intros (-> & Hparse & Hnull & Hpair).
    rewrite (settle_resolved i res body v); [done..|].
    by rewrite isError_not_null, Hpair.
Qed.

(** X3.  Nothing but these two is ever a rejection reason.  If the promise
    is rejected with [reason], then [reason] is the transport error, or
    there is no transport error, the body parses to a response with both
    [error] and [code], and [reason] is a new [Error] whose message is the
    converted code, a colon and a space, then the converted error.  The
    other way round, a transport error is always the rejection reason, and
    so is the combined [Error] when neither value of the pair is an
    array. *)
Theorem rejected_only_for_transport_or_api_error
    (i : invocation) (error : option Error) (res : value) (body : jsstring)
    (reason : Error) :
  (fst (settle (invoke i) error res body) = Rejected reason →
   error = Some reason ∨
   (error = None ∧
    ∃ response e c se sc,
      JSON.parse body = Normal response ∧
      field response (js "error") = Some e ∧
      field response (js "code") = Some c ∧
      ToString e = Normal se ∧ ToString c = Normal sc ∧
      reason = new_Error (sc ++ js ": " ++ se))) ∧
  (error = Some reason →
   fst (settle (invoke i) error res body) = Rejected reason) ∧
  (error = None →
   ∀ response e c se sc,
     JSON.parse body = Normal response →
     field response (js "error") = Some e →
     field response (js "code") = Some c →
     is_array e = false → is_array c = false →
     ToString e = Normal se → ToString c = Normal sc →
     reason = new_Error (sc ++ js ": " ++ se) →
     fst (settle (invoke i) error res body) = Rejected reason).
Proof.
  split; [|split].
  - destruct error as [err|].
    { rewrite settle_transport_error. intros [= <-]. by left. }
    destruct (settle_cases i res body)
      as [[_ ->]|[[_ ->]|[(response & _ & _ & _ & ->)
         |[(response & x & _ & _ & _ & ->)
          |(response & msg & Hparse & Hpair & Hmsg & ->)]]]];
      simpl; try done.
    intros [= <-]. right. split; [done|].
    apply has_error_pair_fields in Hpair as (e & c & He & Hc).
    rewrite (template_results response e c He Hc) in Hmsg.
    destruct (ToString c) as [sc|] eqn:Hsc; [|done].
    destruct (ToString e) as [se|] eqn:Hse; [|done].
    injection Hmsg as <-. by exists response, e, c, se, sc.
  - intros ->. by rewrite settle_transport_error.
  - intros -> response e c se sc Hparse He Hc _ _ Hse Hsc ->.
    assert (response ≠ JNull) as Hnull by (by intros ->).
    rewrite (settle_rejected i res body response (sc ++ js ": " ++ se));
      [done|done| |].
    + rewrite isError_not_null by done. f_equal.
      by apply has_error_pair_intro with e c.
    + by apply template_fields with e c.
Qed.

(** X4.  The outcome depends on the transport error and the body alone:
    it is the same for the three operations, for all their arguments, and
    whatever the response message [res] is (its status code is not read). *)
Theorem outcome_depends_on_error_and_body_alone
    (i i' : invocation) (error : option Error) (res res' : value)
    (body : jsstring) :
  settle (invoke i) error res body = settle (invoke i') error res' body.
Proof.
  destruct error as [e|].
  - by rewrite !settle_transport_error.
  - by rewrite !settle_reply.
Qed.

(** X5.  When the body does not carry an array in its error pair, an
    exception escapes the callback exactly in these cases, all without
    transport error: a [SyntaxError] when the body is not JSON; a
    [TypeError] when the body parses to [null], or to a response that has
    both [error] and [code] with, in one of them, an object that has an
    own [toString] property. *)
Theorem escaping_exception_without_arrays
    (i : invocation) (error : option Error) (res : value) (body : jsstring)
    (x : exn) :
  no_array_in_pair body →
  (snd (settle (invoke i) error res body) = Throw x ↔
   error = None ∧
   ((x = SyntaxError ∧ JSON.parse body = Throw SyntaxError)
    ∨ (x = TypeError ∧
       (JSON.parse body = Normal JNull
        ∨ ∃ response e c,
            JSON.parse body = Normal response ∧
            field response (js "error") = Some e ∧
            field response (js "code") = Some c ∧
            printable e && printable c = false)))).
Proof.
  intros Hplain. destruct error as [err|].
  { rewrite settle_transport_error. split; [done|]. by intros [[=] _]. }
  destruct (settle_cases i res body)
    as [[Hparse ->]|[[Hparse ->]
       |[(response & Hparse & Hnull & Hpair & ->)
        |[(response & y & Hparse & Hpair & Hmsg & ->)
         |(response & msg & Hparse & Hpair & Hmsg & ->)]]]];
    simpl; rewrite Hparse.
  - split.
    + intros [= <-]. split; [done|]. by left.
    + intros [_ [[-> _]|[_ [[=]|(r & e & c & [=] & _)]]]]. done.
  - split.
    + intros [= <-]. split; [done|]. right. split; [done|]. by left.
    + intros [_ [[_ [=]]|[-> _]]]. done.
  - split; [done|].
    intros [_ [[_ [=]]|[_ [[= ->]|(r & e & c & [= <-] & He & Hc & _)]]]].
    + done.
    + by rewrite (has_error_pair_intro response e c He Hc) in Hpair.
  - apply has_error_pair_fields in Hpair as (e & c & He & Hc).
    destruct (Hplain response e c Hparse He Hc) as [Harre Harrc].
    rewrite (template_results response e c He Hc) in Hmsg.
    assert (y = TypeError ∧ printable e && printable c = false) as [-> Hp].
    { destruct (printable c) eqn:Hpc.
      - destruct (ToString_total c Hpc) as [sc Hsc]. rewrite Hsc in Hmsg.
        destruct (printable e) eqn:Hpe.
        + destruct (ToString_total e Hpe) as [se Hse]. by rewrite Hse in Hmsg.
        + rewrite (ToString_unprintable e Harre Hpe) in Hmsg.
          by injection Hmsg as <-.
      - rewrite (ToString_unprintable c Harrc Hpc) in Hmsg.
        injection Hmsg as <-. by rewrite andb_false_r. }
    split.
    + intros [= <-]. split; [done|]. right. split; [done|]. right.
      by exists response, e, c.
    + intros [_ [[_ [=]]|[-> _]]]. done.
  - apply has_error_pair_fields in Hpair as (e & c & He & Hc).
    destruct (Hplain response e c Hparse He Hc) as [Harre Harrc].
    rewrite (template_results response e c He Hc) in Hmsg.
    split; [done|].
    intros [_ [[_ [=]]|[_ [[= ->]|(r & e' & c' & [= <-] & He' & Hc' & Hp)]]]].
    + done.
    + rewrite He in He'. rewrite Hc in Hc'.
      injection He' as <-. injection Hc' as <-.
      destruct (ToString c) as [sc|] eqn:Hsc; [|done].
      destruct (ToString e) as [se|] eqn:Hse; [|done].
      apply (ToString_converts _ _ Harre) in Hse.
      apply (ToString_converts _ _ Harrc) in Hsc.
      by rewrite Hse, Hsc in Hp.
Qed.

(** X6.  A body that is empty or holds white space only is not JSON: with
    no transport error, the callback of every operation throws a
    [SyntaxError] and the promise stays pending. *)
Theorem blank_body_leaves_promise_pending
    (i : invocation) (res : value) (body : jsstring) :
  blank body →
  settle (invoke i) None res body = (Pending, Throw SyntaxError).
Proof. intros Hbody. apply settle_not_json. by apply parse_blank. Qed.

(** X7.  A body whose first code unit after any white space cannot begin
    a JSON text (it is none of an opening brace or bracket, a double quote,
    a minus sign, a digit, [t], [f], [n]; the [<] of an HTML page, say) is
    not JSON, whatever follows: the callback of every operation throws a
    [SyntaxError] and the promise stays pending. *)
Theorem body_with_bad_start_leaves_promise_pending
    (i : invocation) (res : value) (ws : jsstring) (c : N) (text : jsstring) :
  blank ws → JSON.is_ws c = false → begins_json c = false →
  settle (invoke i) None res (ws ++ c :: text) = (Pending, Throw SyntaxError).
Proof.
  intros Hws Hc Hstart. apply settle_not_json.
  assert (blank []) as Hnil by constructor.
  pose proof (parse_blank_around ws (c :: text) [] Hws Hnil) as Heq.
  rewrite app_nil_r in Heq. rewrite Heq. by apply parse_bad_start.
Qed.

(** X8.  White space before and after the body changes nothing: the
    outcome of every operation is that of the body without it. *)
Theorem white_space_around_body_is_ignored
    (i : invocation) (error : option Error) (res : value)
    (ws body ws' : jsstring) :
  blank ws → blank ws' →
  settle (invoke i) error res (ws ++ body ++ ws')
  = settle (invoke i) error res body.
Proof.
  intros Hws Hws'. destruct error as [e|].
  - by rewrite !settle_transport_error.
  - by rewrite !settle_reply, parse_blank_around.
Qed.

(** X9.  The credential goes into the [Authorization] header and nowhere
    else: two invocations that differ only in [token] build requests with
    the same URL, method, query parameters, body and other headers; and
    their [Authorization] headers are equal only if the tokens are. *)
Theorem token_is_sent_only_as_authorization
    (token token' : jsstring) (bin : Buffer) (audio : ReadableStream)
    (q context msg_id thread_id n verbose : value) :
  ∀ o o',
    (o = options_of (speech token bin context msg_id thread_id n) ∧
     o' = options_of (speech token' bin context msg_id thread_id n))
    ∨ (o = options_of (stream token audio context msg_id thread_id n) ∧
       o' = options_of (stream token' audio context msg_id thread_id n))
    ∨ (o = options_of (text token q context msg_id thread_id n verbose) ∧
       o' = options_of (text token' q context msg_id thread_id n verbose)) →
    same_but_authorization o o' ∧
    headers o !! js "Authorization" = Some (js "Bearer " ++ token) ∧
    (headers o !! js "Authorization" = headers o' !! js "Authorization" →
     token = token').
Proof.
  intros o o' [[-> ->] | [[-> ->] | [-> ->]]];
    (split; [by repeat split|]); (split; [reflexivity|]);
    cbn [options_of sent executor speech stream text headers];
    change (Some (js "Bearer " ++ token) = Some (js "Bearer " ++ token')
            → token = token');
    by intros [= ->].
Qed.

End Client.

(** ** Closed instances *)

(** C1, at the response of the specification's example: [text] rejects
    with the message [bad-auth: invalid token]. *)
Lemma bad_auth_is_rejected_with_both_fields :
  settle
    (text render_as_written no_room_for_arrays (js "token") (VJson (JStr (js "hello")))
       VUndefined VUndefined VUndefined VUndefined VUndefined)
    None VUndefined (dq "{'code':'bad-auth','error':'invalid token'}")
  = (Rejected (new_Error (js "bad-auth: invalid token")), Normal ()).
Proof.
  refine (proj1 (api_error_rejects_with_code_and_message render_as_written no_room_for_arrays
    (call_text (js "token") (VJson (JStr (js "hello")))
       VUndefined VUndefined VUndefined VUndefined VUndefined)
    VUndefined (dq "{'code':'bad-auth','error':'invalid token'}")
    (JObj (object [(js "code", JStr (js "bad-auth"));
                   (js "error", JStr (js "invalid token"))]))
    (JStr (js "invalid token")) (JStr (js "bad-auth"))
    (js "invalid token") (js "bad-auth") _ _ _ _ _ _ _));
    vm_compute; reflexivity.
Defined.

(** C1 as first stated fails: a response with both fields, whose [code] is
    an object with an own [toString] property, is not rejected.  The
    template literal throws a [TypeError], which escapes the callback and
    leaves the promise pending. *)
Lemma unprintable_code_is_not_rejected :
  ∃ response e c,
    JSON.parse (dq "{'code':{'toString':0},'error':'x'}") = Normal response ∧
    field response (js "error") = Some e ∧
    field response (js "code") = Some c ∧
    settle
      (text render_as_written no_room_for_arrays (js "token") (VJson (JStr (js "hello")))
         VUndefined VUndefined VUndefined VUndefined VUndefined)
      None VUndefined (dq "{'code':{'toString':0},'error':'x'}")
    = (Pending, Throw TypeError).
Proof.
  eexists _, (JStr (js "x")), (JObj (object [(js "toString", JNum (js "0"))])).
  repeat split; vm_compute; reflexivity.
Qed.

(** C2, at an ordinary reply of the speech endpoint. *)
Lemma ordinary_reply_settles_in_one_way :
  expected_reply None (dq "{'_text':'hello','entities':{}}") ∧
  exists ! w, settled render_as_written no_room_for_arrays w
    (call_speech (js "token") [] VUndefined VUndefined VUndefined VUndefined)
    None VUndefined (dq "{'_text':'hello','entities':{}}").
Proof.
  assert (expected_reply None (dq "{'_text':'hello','entities':{}}")) as Hreply.
  { eexists. split; [vm_compute; reflexivity|]. split; [discriminate|].
    intros e c He. vm_compute in He. discriminate. }
  split; [exact Hreply|].
  exact (expected_reply_settles_in_one_way render_as_written no_room_for_arrays
    (call_speech (js "token") [] VUndefined VUndefined VUndefined VUndefined)
    None VUndefined (dq "{'_text':'hello','entities':{}}") Hreply).
Defined.

(** C2 as first stated fails: a body that is not JSON is not surfaced as a
    rejection.  [JSON.parse] throws a [SyntaxError], which escapes the
    callback and leaves the promise pending. *)
Lemma body_that_is_not_json_leaves_promise_pending :
  settle
    (speech render_as_written no_room_for_arrays (js "token") []
       VUndefined VUndefined VUndefined VUndefined)
    None VUndefined (js "<html>Bad Gateway</html>")
  = (Pending, Throw SyntaxError).
Proof. vm_compute. reflexivity. Qed.

(** C3, at an ordinary reply of the message endpoint. *)
Lemma ordinary_reply_resolves_unchanged :
  settle
    (text render_as_written no_room_for_arrays (js "token") (VJson (JStr (js "hello")))
       VUndefined VUndefined VUndefined VUndefined VUndefined)
    None VUndefined (dq "{'_text':'hello','entities':{}}")
  = (Fulfilled (JObj (object [(js "_text", JStr (js "hello"));
                              (js "entities", JObj ∅)])),
     Normal ()).
Proof.
  refine (plain_response_resolves_unchanged render_as_written no_room_for_arrays
    (call_text (js "token") (VJson (JStr (js "hello")))
       VUndefined VUndefined VUndefined VUndefined VUndefined)
    VUndefined (dq "{'_text':'hello','entities':{}}")
    (JObj (object [(js "_text", JStr (js "hello"));
                   (js "entities", JObj ∅)])) _ _ _);
    [vm_compute; reflexivity|discriminate|vm_compute; reflexivity].
Defined.

(** C3 as first stated fails: the body [null] is JSON and carries no error
    pair, yet the promise is not fulfilled.  Reading [error] off [null]
    throws a [TypeError], which escapes the callback. *)
Lemma null_body_is_not_resolved :
  JSON.parse (js "null") = Normal JNull ∧
  has_error_pair JNull = false ∧
  settle
    (text render_as_written no_room_for_arrays (js "token") (VJson (JStr (js "hello")))
       VUndefined VUndefined VUndefined VUndefined VUndefined)
    None VUndefined (js "null")
  = (Pending, Throw TypeError).
Proof. repeat split; vm_compute; reflexivity. Qed.

(** C5, at a response whose [code] is a number. *)
Lemma numeric_code_is_an_api_error :
  isError (JObj (object [(js "error", JStr (js "Bad request"));
                         (js "code", JNum (js "400"))]))
  = Normal true.
Proof.
  refine (proj1 (isError_iff_both_fields
    (JObj (object [(js "error", JStr (js "Bad request"));
                   (js "code", JNum (js "400"))]))
    _)).
  discriminate.
Defined.

(** C5 as first stated fails: a response whose [code] is a number, not a
    string, is classified as an API error. *)
Lemma non_string_code_is_an_api_error :
  ∃ response,
    JSON.parse (dq "{'error':'Bad request','code':400}") = Normal response ∧
    has_string_pair response = false ∧
    isError response = Normal true.
Proof. eexists. repeat split; vm_compute; reflexivity. Qed.

(** X5, at a response whose [code] is an object with an own [toString]
    property: the pair holds no array, and a [TypeError] escapes. *)
Lemma own_toString_in_code_throws_TypeError :
  no_array_in_pair (dq "{'code':{'toString':0},'error':'x'}") ∧
  (snd (settle
         (text render_as_written no_room_for_arrays (js "token")
            (VJson (JStr (js "hello")))
            VUndefined VUndefined VUndefined VUndefined VUndefined)
         None VUndefined (dq "{'code':{'toString':0},'error':'x'}"))
   = Throw TypeError ↔
   @None Error = None ∧
   ((TypeError = SyntaxError ∧
     JSON.parse (dq "{'code':{'toString':0},'error':'x'}") = Throw SyntaxError)
    ∨ (TypeError = TypeError ∧
       (JSON.parse (dq "{'code':{'toString':0},'error':'x'}") = Normal JNull
        ∨ ∃ response e c,
            JSON.parse (dq "{'code':{'toString':0},'error':'x'}")
            = Normal response ∧
            field response (js "error") = Some e ∧
            field response (js "code") = Some c ∧
            printable e && printable c = false)))).
Proof.
  assert (no_array_in_pair (dq "{'code':{'toString':0},'error':'x'}"))
    as Hplain.
  { intros response e c Hparse He Hc.
    vm_compute in Hparse. injection Hparse as <-.
    vm_compute in He. injection He as <-.
    vm_compute in Hc. injection Hc as <-.
    split; reflexivity. }
  split; [exact Hplain|].
  exact (escaping_exception_without_arrays render_as_written
    no_room_for_arrays
    (call_text (js "token") (VJson (JStr (js "hello")))
       VUndefined VUndefined VUndefined VUndefined VUndefined)
    None VUndefined (dq "{'code':{'toString':0},'error':'x'}") TypeError
    Hplain).
Defined.

(** X6, at a body that is a line break. *)
Lemma line_break_body_leaves_promise_pending :
  settle
    (text render_as_written no_room_for_arrays (js "token") (VJson (JStr (js "hello")))
       VUndefined VUndefined VUndefined VUndefined VUndefined)
    None VUndefined [13; 10]
  = (Pending, Throw SyntaxError).
Proof.
  refine (blank_body_leaves_promise_pending render_as_written no_room_for_arrays
    (call_text (js "token") (VJson (JStr (js "hello")))
       VUndefined VUndefined VUndefined VUndefined VUndefined)
    VUndefined [13; 10] _).
  by repeat constructor.
Defined.

(** X7, at an HTML page. *)
Lemma html_body_leaves_promise_pending :
  settle
    (stream render_as_written no_room_for_arrays (js "token") (mkStream [])
       VUndefined VUndefined VUndefined VUndefined)
    None VUndefined (js " <!DOCTYPE html><html></html>")
  = (Pending, Throw SyntaxError).
Proof.
  refine (body_with_bad_start_leaves_promise_pending render_as_written no_room_for_arrays
    (call_stream (js "token") (mkStream [])
       VUndefined VUndefined VUndefined VUndefined)
    VUndefined [32] 60 (js "!DOCTYPE html><html></html>") _ _ _).
  - by repeat constructor.
  - reflexivity.
  - reflexivity.
Defined.

(** X8, at a reply that ends with a line feed. *)
Lemma trailing_line_feed_is_ignored :
  settle
    (text render_as_written no_room_for_arrays (js "token") (VJson (JStr (js "hello")))
       VUndefined VUndefined VUndefined VUndefined VUndefined)
    None VUndefined ([] ++ dq "{'_text':'hello'}" ++ [10])
  = settle
    (text render_as_written no_room_for_arrays (js "token") (VJson (JStr (js "hello")))
       VUndefined VUndefined VUndefined VUndefined VUndefined)
    None VUndefined (dq "{'_text':'hello'}").
Proof.
  refine (white_space_around_body_is_ignored render_as_written no_room_for_arrays
    (call_text (js "token") (VJson (JStr (js "hello")))
       VUndefined VUndefined VUndefined VUndefined VUndefined)
    None VUndefined [] (dq "{'_text':'hello'}") [10] _ _).
  - constructor.
  - by repeat constructor.
Defined.

(** X9, at two tokens given to [text]. *)
Lemma two_tokens_differ_in_authorization_only :
  let o := options_of
    (text render_as_written no_room_for_arrays (js "first") (VJson (JStr (js "hello")))
       VUndefined VUndefined VUndefined VUndefined VUndefined) in
  let o' := options_of
    (text render_as_written no_room_for_arrays (js "second") (VJson (JStr (js "hello")))
       VUndefined VUndefined VUndefined VUndefined VUndefined) in
  same_but_authorization o o' ∧
  headers o !! js "Authorization" = Some (js "Bearer first") ∧
  (headers o !! js "Authorization" = headers o' !! js "Authorization" →
   js "first" = js "second").
Proof.
  refine (token_is_sent_only_as_authorization render_as_written no_room_for_arrays
    (js "first") (js "second") [] (mkStream [])
    (VJson (JStr (js "hello")))
    VUndefined VUndefined VUndefined VUndefined VUndefined _ _ _).
  right. right. split; reflexivity.
Defined.
